(** * RSS event source: a shallow embedding of
      [extensions/eda/plugins/event_source/rss.py]

    The plugin polls a list of RSS feeds.  Each feed is served by one
    [poll_feed] coroutine that repeatedly fetches the document, parses it
    with [feedparser], selects entries, decorates them with [content_tags]
    and [feed_name] and puts them on the shared queue.

    Modelling choices.
    - Python values that can occur inside a parsed entry are the inductive
      type [value]; dictionaries are [gmap string value].  Floats do not take
      part in any operation of the plugin and are left out.
    - A [feedparser] entry is a dictionary; attribute access [entry.x] is the
      item lookup that raises [AttributeError] when the key is absent.  The
      key aliases of [FeedParserDict] belong to the parser and are not
      modelled.
    - [time.struct_time] is the nine-field tuple; [>] on it is Python's
      lexicographic tuple comparison.
    - The body of the [while True] loop is a computation in a small
      state-and-exception monad over the poller's locals, the queue, the
      logger and a clock advanced by [asyncio.sleep].  State changes made
      before an exception is raised persist, as in Python.
    - The network and the parser are inputs: every loop iteration consumes
      one [http_outcome], and [feedparser.parse] is a section variable. *)

From stdpp Require Import base option list strings gmap.
From Stdlib Require Import ZArith Ascii Lia.

#[local] Set Warnings "-register-all".
#[local] Open Scope string_scope.
#[local] Open Scope list_scope.
#[local] Open Scope Z_scope.

(** ** Python values *)

(** [time.struct_time]: a tuple of nine integers. *)
Record struct_time := mk_struct_time {
  tm_year : Z; tm_mon : Z; tm_mday : Z;
  tm_hour : Z; tm_min : Z; tm_sec : Z;
  tm_wday : Z; tm_yday : Z; tm_isdst : Z
}.

Definition time_tuple (t : struct_time) : list Z :=
  [tm_year t; tm_mon t; tm_mday t; tm_hour t; tm_min t; tm_sec t;
   tm_wday t; tm_yday t; tm_isdst t].

Inductive value :=
  | VNone
  | VBool (b : bool)
  | VInt (n : Z)
  | VStr (s : string)
  | VTime (t : struct_time)
  | VList (l : list value)
  | VDict (d : gmap string value).

(** A parsed entry, a [FeedParserDict]. *)
Abbreviation entry := (gmap string value).

Inductive exn :=
  | AttributeError
  | TypeError
  | IndexError
  | ParserError.

Inductive result (A : Type) :=
  | Ok (a : A)
  | Raise (e : exn).
Arguments Ok {A} a.
Arguments Raise {A} e.

(** ** Python primitives used by the plugin *)

Module Py.

(** Truth value of a string: [if s:]. *)
Definition truthy_str (s : string) : bool :=
  match s with EmptyString => false | String _ _ => true end.

(** Truth value of a list: [if l:]. *)
Definition truthy_list {A} (l : list A) : bool :=
  match l with [] => false | _ :: _ => true end.

(** Truth value of an integer. *)
Definition truthy_int (n : Z) : bool := negb (n =? 0).

Definition is_none (v : value) : bool :=
  match v with VNone => true | _ => false end.

(** [isinstance(v, dict)] *)
Definition isinstance_dict (v : value) : bool :=
  match v with VDict _ => true | _ => false end.

(** The method call [v.get(key)].  Only dictionaries have the method;
    on a dictionary a missing key gives [None]. *)
Definition get (v : value) (key : string) : result value :=
  match v with
  | VDict d => Ok (default VNone (d !! key))
  | _ => Raise AttributeError
  end.

(** Attribute access [entry.name] on a [FeedParserDict]. *)
Definition getattr (e : entry) (name : string) : result value :=
  match e !! name with
  | Some v => Ok v
  | None => Raise AttributeError
  end.

(** [s1.startswith]-style test used to define containment. *)
Fixpoint starts_with (needle hay : string) : bool :=
  match needle, hay with
  | EmptyString, _ => true
  | String _ _, EmptyString => false
  | String a needle', String b hay' =>
      Ascii.eqb a b && starts_with needle' hay'
  end.

(** [needle in hay] for two strings: substring containment. *)
Fixpoint str_contains (needle hay : string) : bool :=
  starts_with needle hay ||
  match hay with
  | EmptyString => false
  | String _ hay' => str_contains needle hay'
  end.

Definition str_is (needle : string) (v : value) : bool :=
  match v with VStr s => String.eqb needle s | _ => false end.

(** [needle in container] for a string [needle].  A string container is
    searched for a substring, a list for an equal element, a dictionary
    for the key; a [struct_time] holds integers only.  The other values
    are not iterable. *)
Definition contains (needle : string) (container : value) : result bool :=
  match container with
  | VStr s => Ok (str_contains needle s)
  | VList l => Ok (existsb (str_is needle) l)
  | VDict d => Ok (bool_decide (is_Some (d !! needle)))
  | VTime _ => Ok false
  | VNone | VBool _ | VInt _ => Raise TypeError
  end.

(** Tuple comparison [a > b]. *)
Fixpoint tuple_gtb (a b : list Z) : bool :=
  match a, b with
  | x :: a', y :: b' => if x =? y then tuple_gtb a' b' else y <? x
  | _ :: _, [] => true
  | [], _ => false
  end.

Definition time_gtb (a b : struct_time) : bool :=
  tuple_gtb (time_tuple a) (time_tuple b).

(** [v > w] where [w] is a [struct_time].  Every value that is not itself
    a time tuple is unorderable against one. *)
Definition gt_time (v : value) (w : struct_time) : result bool :=
  match v with
  | VTime t => Ok (time_gtb t w)
  | _ => Raise TypeError
  end.

(** [l[0]] *)
Definition index0 {A} (l : list A) : result A :=
  match l with
  | x :: _ => Ok x
  | [] => Raise IndexError
  end.

(** [s.split(sep)] for a one-character separator. *)
Fixpoint split (sep : ascii) (s : string) : list string :=
  match s with
  | EmptyString => [EmptyString]
  | String c rest =>
      if Ascii.eqb c sep then EmptyString :: split sep rest
      else match split sep rest with
           | [] => [String c EmptyString]
           | hd :: tl => String c hd :: tl
           end
  end.

End Py.

(** ** [get_nested_value] (lines 79-84) *)

Fixpoint get_nested_value (dictionary : value) (keys : list string)
  : result value :=
  match keys with
  | [] => Ok dictionary
  | key :: keys' =>
      if Py.is_none dictionary || negb (Py.isinstance_dict dictionary)
      then Ok VNone
      else match Py.get dictionary key with
           | Ok dictionary' => get_nested_value dictionary' keys'
           | Raise e => Raise e
           end
  end.

(** ** Feed configuration *)

(** The dictionary [feed_config] as [poll_feed] reads it.  A field is [None]
    when the key is absent or holds [None]: [dict.get] does not tell the two
    apart.  [cfg_name] is the exception, its default being the empty
    string. *)
Record feed_config := mk_feed_config {
  cfg_url : string;
  cfg_search : option string;
  cfg_content_tags : option string;
  cfg_interval : option Z;
  cfg_name : option string
}.

(** Line 102: [content_tags_path.split('.') if content_tags_path else []]. *)
Definition content_tags_keys (content_tags_path : option string)
  : list string :=
  match content_tags_path with
  | Some p => if Py.truthy_str p then Py.split "." p else []
  | None => []
  end.

(** Lines 117 and 126:
    [get_nested_value(entry, content_tags_keys) if content_tags_keys else None]. *)
Definition project_keys (e : entry) (keys : list string) : result value :=
  if Py.truthy_list keys then get_nested_value (VDict e) keys else Ok VNone.

(** Field projection of a dotted path, lines 101-102 with 117. *)
Definition project (e : entry) (content_tags_path : option string)
  : result value :=
  project_keys e (content_tags_keys content_tags_path).

(** Line 103: [feed_config.get('interval') or default_interval]. *)
Definition effective_interval (cfg : feed_config) (default_interval : Z) : Z :=
  match cfg_interval cfg with
  | Some n => if Py.truthy_int n then n else default_interval
  | None => default_interval
  end.

(** Line 104: [feed_config.get('name', '')]. *)
Definition feed_name_of (cfg : feed_config) : string :=
  default "" (cfg_name cfg).

(** Lines 116 and 125:
    [search_string is None or search_string in entry.summary]. *)
Definition passes_search (search_string : option string) (e : entry)
  : result bool :=
  match search_string with
  | None => Ok true
  | Some s =>
      match Py.getattr e "summary" with
      | Ok summary => Py.contains s summary
      | Raise x => Raise x
      end
  end.

(** ** The poller's machine state and its monad *)

Inductive log_record :=
  | LogFetchStatus (url : string) (status : Z)   (* line 92 *)
  | LogFetchError (url : string)                 (* line 95 *)
  | LogNoData (url : string)                     (* line 134 *)
  | LogPollError (url : string) (e : exn).       (* line 136 *)

(** The locals of [poll_feed] that change between iterations
    ([last_updated], [first_poll]) and what the coroutine acts on: the queue,
    the logger and the time spent in [asyncio.sleep]. *)
Record machine := mk_machine {
  last_updated : option struct_time;
  first_poll : bool;
  queue : list entry;
  log : list log_record;
  clock : Z
}.

Definition M (A : Type) : Type := machine → machine * result A.

Definition ret {A} (a : A) : M A := λ m, (m, Ok a).

Definition bind {A B} (c : M A) (k : A → M B) : M B := λ m,
  match c m with
  | (m', Ok a) => k a m'
  | (m', Raise e) => (m', Raise e)
  end.

Declare Scope M_scope.
Delimit Scope M_scope with M.
Bind Scope M_scope with M.
Notation "x ← c ; k" := (bind c (λ x, k))
  (at level 20, c at level 100, k at level 200, only parsing) : M_scope.
Notation "c ;; k" := (bind c (λ _, k))
  (at level 100, k at level 200, only parsing, right associativity) : M_scope.
#[local] Open Scope M_scope.

(** A pure, possibly raising, expression evaluated in the coroutine. *)
Definition lift {A} (r : result A) : M A := λ m, (m, r).

Definition read {A} (f : machine → A) : M A := λ m, (m, Ok (f m)).

Definition set_last_updated (t : option struct_time) : M unit := λ m,
  (mk_machine t (first_poll m) (queue m) (log m) (clock m), Ok tt).

Definition set_first_poll (b : bool) : M unit := λ m,
  (mk_machine (last_updated m) b (queue m) (log m) (clock m), Ok tt).

(** [await queue.put(entry)] *)
Definition queue_put (e : entry) : M unit := λ m,
  (mk_machine (last_updated m) (first_poll m) (queue m ++ [e]) (log m)
     (clock m), Ok tt).

(** [logger.error(...)] *)
Definition logger_error (r : log_record) : M unit := λ m,
  (mk_machine (last_updated m) (first_poll m) (queue m) (log m ++ [r])
     (clock m), Ok tt).

(** [await asyncio.sleep(d)]; a delay that is not positive returns at
    once. *)
Definition asyncio_sleep (d : Z) : M unit := λ m,
  (mk_machine (last_updated m) (first_poll m) (queue m) (log m)
     (clock m + Z.max 0 d), Ok tt).

(** [try: body except Exception as e: handler e] *)
Definition try_except {A} (body : M A) (handler : exn → M A) : M A := λ m,
  match body m with
  | (m', Ok a) => (m', Ok a)
  | (m', Raise e) => handler e m'
  end.

(** [for x in l: body x] *)
Fixpoint for_each {A} (l : list A) (body : A → M unit) : M unit :=
  match l with
  | [] => ret tt
  | x :: l' => body x;; for_each l' body
  end.

(** ** [fetch_rss_feed] (lines 86-96) *)

(** What [session.get] and [response.text()] do in one call: a response with
    a status and a body, or an exception of the transport. *)
Inductive http_outcome :=
  | HttpResponse (status : Z) (text : string)
  | HttpException.

Definition fetch_rss_feed (feed_url : string) (net : http_outcome) : M string :=
  match net with
  | HttpResponse status text =>
      if status =? 200 then ret text
      else logger_error (LogFetchStatus feed_url status);; ret ""
  | HttpException =>
      logger_error (LogFetchError feed_url);; ret ""
  end.

(** ** [poll_feed] (lines 98-137) *)

(** What [feedparser.parse] returns: [feed.feed.updated_parsed], absent
    ([None]), present with value [None] ([Some None]) or a time, and
    [feed.entries]. *)
Record parsed_feed := mk_parsed_feed {
  feed_updated_parsed : option (option struct_time);
  entries : list entry
}.

(** Lines 117-121 and 126-130, the same five statements in both branches. *)
Definition emit (content_tags_keys : list string) (feed_name : string)
    (e : entry) : M unit :=
  content_tags ← lift (project_keys e content_tags_keys);
  let e1 :=
    if Py.is_none content_tags then e
    else <["content_tags" := content_tags]> e in
  let e2 := <["feed_name" := VStr feed_name]> e1 in
  queue_put e2.

Section Poller.

Variable feedparser_parse : string → result parsed_feed.
Variable feed_config : feed_config.
Variable default_interval : Z.
Variable most_recent_item : bool.

(** Lines 99-104. *)
Let feed_url := cfg_url feed_config.
Let search_string := cfg_search feed_config.
Let keys := content_tags_keys (cfg_content_tags feed_config).
Let interval := effective_interval feed_config default_interval.
Let feed_name := feed_name_of feed_config.

(** Lines 115-122, the branch taken on
    [first_poll and most_recent_item and feed.entries]. *)
Definition cold_start_branch (first : entry) : M unit :=
  ok ← lift (passes_search search_string first);
  (if ok then emit keys feed_name first else ret tt);;
  set_first_poll false.

(** Line 125, the condition
    [entry.updated_parsed > last_updated and (search_string is None or
    search_string in entry.summary)]; [and] evaluates its right operand only
    when the left one is true. *)
Definition steady_condition (watermark : struct_time) (e : entry)
  : result bool :=
  match Py.getattr e "updated_parsed" with
  | Raise x => Raise x
  | Ok updated =>
      match Py.gt_time updated watermark with
      | Raise x => Raise x
      | Ok false => Ok false
      | Ok true => passes_search search_string e
      end
  end.

(** Lines 125-130, the body of the [for] loop of the [elif] branch. *)
Definition steady_step (watermark : struct_time) (e : entry) : M unit :=
  newer ← lift (steady_condition watermark e);
  if newer then emit keys feed_name e else ret tt.

(** Lines 112-132, entered when [feed_data] is not empty.  [last_updated]
    is [None] or a [struct_time]; the latter is a tuple of nine fields and
    so always true in [elif last_updated].  Line 132 reads
    [feed.feed.updated_parsed] when [hasattr] finds it and [None]
    otherwise. *)
Definition process_feed (feed_data : string) : M unit :=
  feed ← lift (feedparser_parse feed_data);
  fp ← read first_poll;
  lu ← read last_updated;
  (if fp && most_recent_item && Py.truthy_list (entries feed) then
     first ← lift (Py.index0 (entries feed));
     cold_start_branch first
   else
     match lu with
     | Some watermark => for_each (entries feed) (steady_step watermark)
     | None => ret tt
     end);;
  set_last_updated
    (match feed_updated_parsed feed with
     | Some t => t
     | None => None
     end).

(** Lines 109-137: one iteration of [while True]. *)
Definition poll_iteration (net : http_outcome) : M unit :=
  try_except
    (feed_data ← fetch_rss_feed feed_url net;
     if Py.truthy_str feed_data then process_feed feed_data
     else logger_error (LogNoData feed_url))
    (λ e, logger_error (LogPollError feed_url e));;
  asyncio_sleep interval.

(** The machine after one iteration. *)
Definition poll_cycle (net : http_outcome) (m : machine) : machine :=
  fst (poll_iteration net m).

(** The machine after the iterations that consume [nets], in order. *)
Definition poll_cycles (nets : list http_outcome) (m : machine) : machine :=
  foldl (λ m net, poll_cycle net m) m nets.

(** Lines 105-106 with the queue handed to [poll_feed]. *)
Definition initial_machine (q : list entry) : machine :=
  mk_machine None true q [] 0.

(** [poll_feed] run for as many iterations as there are network outcomes. *)
Definition poll_feed (q : list entry) (nets : list http_outcome) : machine :=
  poll_cycles nets (initial_machine q).

End Poller.

(** ** Specification-side notions *)

(** [needle] occurs in [hay] as a contiguous, case-sensitive run. *)
Definition is_substring (needle hay : string) : Prop :=
  ∃ before after, hay = before +:+ needle +:+ after.

(** The value reached from [v] by one dictionary lookup per key.  A key that
    the dictionary does not hold leads to [None], which is how an absent
    value shows up further along the path. *)
Inductive reaches : value → list string → value → Prop :=
  | reaches_nil v : reaches v [] v
  | reaches_cons d key keys v :
      reaches (default VNone (d !! key)) keys v →
      reaches (VDict d) (key :: keys) v.

(** The event that lines 117-120 make of an entry. *)
Definition decorate (keys : list string) (feed_name : string) (e : entry)
  : entry :=
  let content_tags :=
    match project_keys e keys with Ok v => v | Raise _ => VNone end in
  <["feed_name" := VStr feed_name]>
    (if Py.is_none content_tags then e
     else <["content_tags" := content_tags]> e).

(** The machine after [es] have been put on the queue, in order. *)
Definition enqueue (es : list entry) (m : machine) : machine :=
  mk_machine (last_updated m) (first_poll m) (queue m ++ es) (log m) (clock m).

(** The event a feed makes of an entry. *)
Definition event_of (cfg : feed_config) (e : entry) : entry :=
  decorate (content_tags_keys (cfg_content_tags cfg)) (feed_name_of cfg) e.

(** Whether the loop of the [elif] branch puts the entry on the queue. *)
Definition selected (cfg : feed_config) (watermark : struct_time) (e : entry)
  : bool :=
  match steady_condition cfg watermark e with
  | Ok b => b
  | Raise _ => false
  end.

(** The condition of line 125 evaluates on the entry without raising. *)
Definition evaluates (cfg : feed_config) (watermark : struct_time) (e : entry)
  : Prop :=
  ∃ b, steady_condition cfg watermark e = Ok b.

(** The watermark that line 132 assigns. *)
Definition fresh_watermark (feed : parsed_feed) : option struct_time :=
  match feed_updated_parsed feed with
  | Some t => t
  | None => None
  end.

(** The guard of line 114. *)
Definition cold_start_pending (most_recent_item : bool) (m : machine)
    (feed : parsed_feed) : bool :=
  first_poll m && most_recent_item && Py.truthy_list (entries feed).

(** What [fetch_rss_feed] returns and what it logs. *)
Definition fetch_result (net : http_outcome) : string :=
  match net with
  | HttpResponse status text => if status =? 200 then text else ""
  | HttpException => ""
  end.

Definition fetch_log (url : string) (net : http_outcome) : list log_record :=
  match net with
  | HttpResponse status text =>
      if status =? 200 then [] else [LogFetchStatus url status]
  | HttpException => [LogFetchError url]
  end.

(** The end of an iteration: the errors logged and the sleep. *)
Definition finish (cfg : feed_config) (default_interval : Z)
    (errors : list log_record) (m : machine) : machine :=
  mk_machine (last_updated m) (first_poll m) (queue m) (log m ++ errors)
    (clock m + Z.max 0 (effective_interval cfg default_interval)).

(** A fetch that yields no data, or a document on which the parser raises. *)
Definition cycle_fails (feedparser_parse : string → result parsed_feed)
    (net : http_outcome) : Prop :=
  fetch_result net = ""
  ∨ ∃ text x, net = HttpResponse 200 text ∧ feedparser_parse text = Raise x.

(** ** Concrete feeds *)

Module Scenario.

Definition day (n : Z) : struct_time := mk_struct_time 2024 1 n 12 0 0 0 n 0.

(** An entry with an id, a time of update and a summary. *)
Definition item (id : string) (n : Z) (summary : string) : entry :=
  <["id" := VStr id]>
    (<["updated_parsed" := VTime (day n)]> (<["summary" := VStr summary]> ∅)).

(** An entry without [updated_parsed]. *)
Definition undated (id summary : string) : entry :=
  <["id" := VStr id]> (<["summary" := VStr summary]> ∅).

(** [{tags: {label: "news"}}] and [{tags: None}]. *)
Definition tagged : entry :=
  <["tags" := VDict (<["label" := VStr "news"]> ∅)]> (item "t" 8 "tagged").

Definition untagged : entry := <["tags" := VNone]> (item "u" 8 "untagged").

Definition plain : feed_config :=
  mk_feed_config "http://example.com/rss" None None None None.

(** The feed of the plugin's documentation. *)
Definition documented : feed_config :=
  mk_feed_config "http://example.com/rss1" (Some "python") (Some "tags.label")
    (Some 30) (Some "Example RSS").

(** A feed whose own interval is 0. *)
Definition hasty : feed_config :=
  mk_feed_config "http://example.com/rss2" None None (Some 0) None.

Definition old_item : entry := item "old" 3 "python rocks".
Definition new_item : entry := item "new" 8 "python rocks".
Definition capital_item : entry := item "cap" 8 "A post about Python tips".

(** A parser that knows five documents.  Every other text is a malformed
    document: it parses to a feed without a feed-level time and without
    entries. *)
Definition parse (text : string) : result parsed_feed :=
  if String.eqb text "empty" then
    Ok (mk_parsed_feed (Some (Some (day 5))) [])
  else if String.eqb text "old-new" then
    Ok (mk_parsed_feed (Some (Some (day 9))) [old_item; new_item])
  else if String.eqb text "new-old" then
    Ok (mk_parsed_feed (Some (Some (day 9))) [new_item; old_item])
  else if String.eqb text "undated-new" then
    Ok (mk_parsed_feed (Some (Some (day 9))) [undated "x" "python"; new_item])
  else if String.eqb text "raises" then
    Raise ParserError
  else Ok (mk_parsed_feed None []).

(** An entry that has an id and nothing else. *)
Definition bare : entry := <["id" := VStr "bare"]> ∅.

(** A parser that finds the bare entry and an old one in every document. *)
Definition parse_bare (text : string) : result parsed_feed :=
  Ok (mk_parsed_feed (Some (Some (day 9))) [bare; old_item]).

(** A poller whose watermark is day 5 and whose cold start is over. *)
Definition steady_machine : machine :=
  mk_machine (Some (day 5)) false [] [] 0.

End Scenario.

(** * Facts about the primitives *)

Lemma starts_with_iff needle hay :
  Py.starts_with needle hay = true ↔ ∃ after, hay = needle +:+ after.
Proof.
  revert hay. induction needle as [|a needle IH]; intros hay; simpl.
  - split; [intros _; by exists hay | done].
  - destruct hay as [|b hay]; simpl.
    + split; [done | intros [after H]; discriminate H].
    + rewrite andb_true_iff, Ascii.eqb_eq, IH. split.
      * intros [-> [after ->]]. by exists after.
      * intros [after H]. injection H as -> ->. split; [done | by exists after].
Qed.

Lemma str_contains_iff needle hay :
  Py.str_contains needle hay = true ↔ is_substring needle hay.
Proof.
  unfold is_substring. induction hay as [|c hay IH].
  - simpl. rewrite orb_false_r, starts_with_iff. split.
    + intros [after H]. by exists "", after.
    + intros [before [after H]]. destruct before; [by exists after | discriminate H].
  - cbn [Py.str_contains]. rewrite orb_true_iff, starts_with_iff, IH. split.
    + intros [[after H] | [before [after H]]].
      * by exists "", after.
      * exists (String c before), after. simpl. by rewrite H.
    + intros [before [after H]]. destruct before as [|c' before]; simpl in H.
      * left. by exists after.
      * right. injection H as -> ->. by exists before, after.
Qed.

Lemma split_not_nil sep s : Py.split sep s ≠ [].
Proof.
  destruct s as [|c s]; simpl; [done |].
  destruct (Ascii.eqb c sep); [done |].
  by destruct (Py.split sep s).
Qed.

Lemma content_tags_keys_truthy path :
  path ≠ "" → Py.truthy_list (content_tags_keys (Some path)) = true.
Proof.
  intros Hne. unfold content_tags_keys.
  destruct path as [|c path]; [done |]. cbn [Py.truthy_str].
  pose proof (split_not_nil "." (String c path)) as Hs.
  by destruct (Py.split "." (String c path)).
Qed.

Lemma get_nested_value_none keys : get_nested_value VNone keys = Ok VNone.
Proof. by destruct keys. Qed.

Lemma get_nested_value_not_dict v key keys :
  Py.isinstance_dict v = false → get_nested_value v (key :: keys) = Ok VNone.
Proof. intros H. simpl. rewrite H. by rewrite orb_true_r. Qed.

Lemma get_nested_value_dict d key keys :
  get_nested_value (VDict d) (key :: keys)
  = get_nested_value (default VNone (d !! key)) keys.
Proof. reflexivity. Qed.

Lemma get_nested_value_total v keys : ∃ r, get_nested_value v keys = Ok r.
Proof.
  revert v. induction keys as [|key keys IH]; intros v.
  - by exists v.
  - destruct v; try (by exists VNone). rewrite get_nested_value_dict. apply IH.
Qed.

Lemma get_nested_value_reaches v keys u :
  reaches v keys u → get_nested_value v keys = Ok u.
Proof.
  induction 1 as [v | d key keys v _ IH]; [done |].
  by rewrite get_nested_value_dict.
Qed.

Lemma get_nested_value_stuck v before key after u :
  reaches v before u → Py.isinstance_dict u = false →
  get_nested_value v (before ++ key :: after) = Ok VNone.
Proof.
  induction 1 as [v | d k keys v _ IH]; intros Hu.
  - by apply get_nested_value_not_dict.
  - simpl app. rewrite get_nested_value_dict. by apply IH.
Qed.

Lemma project_keys_total e keys : ∃ r, project_keys e keys = Ok r.
Proof.
  unfold project_keys. destruct (Py.truthy_list keys); [| by exists VNone].
  apply get_nested_value_total.
Qed.

(** * Facts about the monad and the loop body *)

Lemma enqueue_nil m : enqueue [] m = m.
Proof. destruct m. unfold enqueue. simpl. by rewrite app_nil_r. Qed.

Lemma enqueue_enqueue es1 es2 m :
  enqueue es2 (enqueue es1 m) = enqueue (es1 ++ es2) m.
Proof. unfold enqueue. simpl. by rewrite app_assoc. Qed.

Lemma emit_run keys name e m :
  emit keys name e m = (enqueue [decorate keys name e] m, Ok tt).
Proof.
  unfold emit, decorate, bind, lift.
  by destruct (project_keys_total e keys) as [r ->].
Qed.

Lemma for_each_app {A} (l1 l2 : list A) (body : A → M unit) m :
  for_each (l1 ++ l2) body m
  = match for_each l1 body m with
    | (m', Ok _) => for_each l2 body m'
    | (m', Raise x) => (m', Raise x)
    end.
Proof.
  revert m. induction l1 as [|a l1 IH]; intros m; [done |].
  simpl. unfold bind. destruct (body a m) as [m' [[]|x]]; [apply IH | done].
Qed.

Section PollerFacts.

Variable feedparser_parse : string → result parsed_feed.
Variable cfg : feed_config.
Variable default_interval : Z.
Variable most_recent_item : bool.

Lemma steady_step_run w e m :
  steady_step cfg w e m
  = match steady_condition cfg w e with
    | Ok true => (enqueue [event_of cfg e] m, Ok tt)
    | Ok false => (m, Ok tt)
    | Raise x => (m, Raise x)
    end.
Proof.
  unfold steady_step, bind, lift. cbv zeta.
  destruct (steady_condition cfg w e) as [[]|x]; [apply emit_run | done | done].
Qed.

Lemma steady_loop_ok w es m :
  Forall (evaluates cfg w) es →
  for_each es (steady_step cfg w) m
  = (enqueue (event_of cfg <$> List.filter (selected cfg w) es) m, Ok tt).
Proof.
  intros Hall. revert m. induction Hall as [|e es [b Hb] _ IH]; intros m.
  - simpl. by rewrite enqueue_nil.
  - simpl. unfold bind. rewrite steady_step_run. unfold selected at 1.
    rewrite Hb. destruct b.
    + rewrite IH, enqueue_enqueue. done.
    + by rewrite IH.
Qed.

Lemma steady_loop_abort w before bad after x m :
  Forall (evaluates cfg w) before →
  steady_condition cfg w bad = Raise x →
  for_each (before ++ bad :: after) (steady_step cfg w) m
  = (enqueue (event_of cfg <$> List.filter (selected cfg w) before) m, Raise x).
Proof.
  intros Hall Hbad. rewrite for_each_app, (steady_loop_ok _ _ _ Hall).
  simpl. unfold bind. by rewrite steady_step_run, Hbad.
Qed.

Lemma steady_loop_cases w es :
  Forall (evaluates cfg w) es
  ∨ ∃ before bad after x,
      es = before ++ bad :: after
      ∧ Forall (evaluates cfg w) before
      ∧ steady_condition cfg w bad = Raise x.
Proof.
  induction es as [|e es IH]; [by left |].
  destruct (steady_condition cfg w e) as [b|x] eqn:He.
  - destruct IH as [Hall | (before & bad & after & x & -> & Hall & Hbad)].
    + left. constructor; [by exists b | done].
    + right. exists (e :: before), bad, after, x.
      split; [done |]. split; [| done]. constructor; [by exists b | done].
  - right. by exists [], e, es, x.
Qed.

Lemma process_feed_parse_raise text x m :
  feedparser_parse text = Raise x →
  process_feed feedparser_parse cfg most_recent_item text m = (m, Raise x).
Proof. intros H. unfold process_feed, bind, lift. by rewrite H. Qed.

Lemma process_feed_cold text feed first rest m :
  feedparser_parse text = Ok feed →
  first_poll m = true → most_recent_item = true →
  entries feed = first :: rest →
  process_feed feedparser_parse cfg most_recent_item text m
  = match passes_search (cfg_search cfg) first with
    | Ok b =>
        (mk_machine (fresh_watermark feed) false
           (queue m ++ (if b then [event_of cfg first] else []))
           (log m) (clock m), Ok tt)
    | Raise x => (m, Raise x)
    end.
Proof.
  intros Hp Hf -> He. unfold process_feed, bind, lift, read. rewrite Hp, Hf, He.
  cbn [andb Py.truthy_list Py.index0]. unfold cold_start_branch, bind, lift.
  cbv zeta. destruct (passes_search (cfg_search cfg) first) as [[]|x]; [| | done].
  - rewrite emit_run. unfold set_first_poll, set_last_updated, fresh_watermark.
    by destruct m.
  - unfold ret, set_first_poll, set_last_updated, fresh_watermark. simpl.
    by rewrite app_nil_r.
Qed.

Lemma process_feed_steady text feed w m :
  feedparser_parse text = Ok feed →
  cold_start_pending most_recent_item m feed = false →
  last_updated m = Some w →
  process_feed feedparser_parse cfg most_recent_item text m
  = match for_each (entries feed) (steady_step cfg w) m with
    | (m', Ok _) => set_last_updated (fresh_watermark feed) m'
    | (m', Raise x) => (m', Raise x)
    end.
Proof.
  intros Hp Hc Hw. unfold cold_start_pending in Hc.
  unfold process_feed, bind, lift, read. rewrite Hp, Hc, Hw.
  by destruct (for_each (entries feed) (steady_step cfg w) m) as [m' [[]|x]].
Qed.

Lemma process_feed_idle text feed m :
  feedparser_parse text = Ok feed →
  cold_start_pending most_recent_item m feed = false →
  last_updated m = None →
  process_feed feedparser_parse cfg most_recent_item text m
  = set_last_updated (fresh_watermark feed) m.
Proof.
  intros Hp Hc Hw. unfold cold_start_pending in Hc.
  unfold process_feed, bind, lift, read. by rewrite Hp, Hc, Hw.
Qed.

Lemma fetch_rss_feed_run net m :
  fetch_rss_feed (cfg_url cfg) net m
  = (mk_machine (last_updated m) (first_poll m) (queue m)
       (log m ++ fetch_log (cfg_url cfg) net) (clock m),
     Ok (fetch_result net)).
Proof.
  destruct net as [status text|]; simpl; [| done].
  destruct (status =? 200); [| done].
  unfold ret. rewrite app_nil_r. by destruct m.
Qed.

Lemma poll_cycle_no_data net m :
  fetch_result net = "" →
  poll_cycle feedparser_parse cfg default_interval most_recent_item net m
  = finish cfg default_interval (fetch_log (cfg_url cfg) net ++ [LogNoData (cfg_url cfg)]) m.
Proof.
  intros H. unfold poll_cycle, poll_iteration, try_except, bind. cbv zeta.
  rewrite fetch_rss_feed_run, H. simpl. unfold finish. simpl.
  by rewrite app_assoc.
Qed.

Lemma poll_cycle_data text m :
  text ≠ "" →
  poll_cycle feedparser_parse cfg default_interval most_recent_item
    (HttpResponse 200 text) m
  = match process_feed feedparser_parse cfg most_recent_item text m with
    | (m', Ok _) => finish cfg default_interval [] m'
    | (m', Raise x) => finish cfg default_interval [LogPollError (cfg_url cfg) x] m'
    end.
Proof.
  intros H. unfold poll_cycle, poll_iteration, try_except, bind. cbv zeta.
  rewrite fetch_rss_feed_run.
  change (fetch_result (HttpResponse 200 text)) with text.
  change (fetch_log (cfg_url cfg) (HttpResponse 200 text))
    with (@nil log_record).
  destruct text as [|c text]; [done |]. cbn [Py.truthy_str].
  rewrite app_nil_r.
  replace (mk_machine (last_updated m) (first_poll m) (queue m) (log m) (clock m))
    with m by (by destruct m).
  destruct (process_feed feedparser_parse cfg most_recent_item (String c text) m)
    as [m' [[]|x]]; simpl; unfold finish; [by rewrite app_nil_r | done].
Qed.

Lemma process_feed_outcome text m :
  ∃ m' r,
    process_feed feedparser_parse cfg most_recent_item text m = (m', r)
    ∧ log m' = log m ∧ clock m' = clock m
    ∧ (first_poll m = false → first_poll m' = false)
    ∧ match r with
      | Ok _ =>
          ∃ feed, feedparser_parse text = Ok feed
                  ∧ last_updated m' = fresh_watermark feed
      | Raise _ =>
          last_updated m' = last_updated m ∧ first_poll m' = first_poll m
      end.
Proof.
  destruct (feedparser_parse text) as [feed|x] eqn:Hp.
  2: { exists m, (Raise x). by rewrite (process_feed_parse_raise _ _ _ Hp). }
  destruct (cold_start_pending most_recent_item m feed) eqn:Hc.
  - unfold cold_start_pending in Hc.
    apply andb_true_iff in Hc as [Hc He]. apply andb_true_iff in Hc as [Hf Hm].
    destruct (entries feed) as [|first rest] eqn:Hes; [done |].
    rewrite (process_feed_cold _ _ _ _ _ Hp Hf Hm Hes).
    destruct (passes_search (cfg_search cfg) first) as [b|x].
    + eexists _, _. split; [done |]. simpl. eauto 10.
    + by exists m, (Raise x).
  - destruct (last_updated m) as [w|] eqn:Hw.
    + rewrite (process_feed_steady _ _ _ _ Hp Hc Hw).
      destruct (steady_loop_cases w (entries feed))
        as [Hall | (before & bad & after & x & He & Hall & Hbad)].
      * rewrite (steady_loop_ok _ _ _ Hall).
        eexists _, _. split; [done |]. simpl. eauto 10.
      * rewrite He, (steady_loop_abort _ _ _ _ _ _ Hall Hbad).
        eexists _, _. split; [done |]. by simpl.
    + rewrite (process_feed_idle _ _ _ Hp Hc Hw).
      eexists _, _. split; [done |]. simpl. eauto 10.
Qed.

Lemma fetch_result_data net text :
  fetch_result net = text → text ≠ "" → net = HttpResponse 200 text.
Proof.
  destruct net as [status body|]; simpl; [| by intros <-].
  destruct (Z.eqb_spec status 200) as [->|]; [by intros -> | by intros <-].
Qed.

Lemma poll_cycle_cases net m :
  (fetch_result net = ""
   ∧ poll_cycle feedparser_parse cfg default_interval most_recent_item net m
     = finish cfg default_interval
         (fetch_log (cfg_url cfg) net ++ [LogNoData (cfg_url cfg)]) m)
  ∨ ∃ text m' r,
      net = HttpResponse 200 text ∧ text ≠ ""
      ∧ process_feed feedparser_parse cfg most_recent_item text m = (m', r)
      ∧ poll_cycle feedparser_parse cfg default_interval most_recent_item net m
        = finish cfg default_interval
            (match r with
             | Ok _ => []
             | Raise x => [LogPollError (cfg_url cfg) x]
             end) m'.
Proof.
  destruct (fetch_result net) as [|c text] eqn:Hf.
  - left. split; [done |]. by apply poll_cycle_no_data.
  - right. apply fetch_result_data in Hf as ->; [| done].
    destruct (process_feed feedparser_parse cfg most_recent_item (String c text) m)
      as [m' r] eqn:Hp.
    exists (String c text), m', r. repeat split; [done | done |].
    rewrite poll_cycle_data by done. rewrite Hp. by destruct r as [[]|x].
Qed.

Lemma failed_cycle_frame net m :
  cycle_fails feedparser_parse net →
  let m' :=
    poll_cycle feedparser_parse cfg default_interval most_recent_item net m in
  last_updated m' = last_updated m ∧ first_poll m' = first_poll m
  ∧ queue m' = queue m.
Proof.
  intros Hfail m'. subst m'.
  destruct (poll_cycle_cases net m) as [[_ ->] | (text & m1 & r & -> & Ht & Hp & ->)];
    [done |].
  destruct Hfail as [Hf | (text' & x & [= <-] & Hx)].
  - change (fetch_result (HttpResponse 200 text)) with text in Hf. done.
  - rewrite (process_feed_parse_raise _ _ _ Hx) in Hp. by injection Hp as <- <-.
Qed.

Lemma failed_cycles_frame nets m :
  Forall (cycle_fails feedparser_parse) nets →
  let m' :=
    poll_cycles feedparser_parse cfg default_interval most_recent_item nets m in
  last_updated m' = last_updated m ∧ first_poll m' = first_poll m
  ∧ queue m' = queue m.
Proof.
  intros Hall. revert m. induction Hall as [|net nets Hnet _ IH]; intros m; [done |].
  simpl. destruct (IH (poll_cycle feedparser_parse cfg default_interval
                         most_recent_item net m)) as (-> & -> & ->).
  by apply failed_cycle_frame.
Qed.

Lemma poll_cycles_app nets1 nets2 m :
  poll_cycles feedparser_parse cfg default_interval most_recent_item
    (nets1 ++ nets2) m
  = poll_cycles feedparser_parse cfg default_interval most_recent_item nets2
      (poll_cycles feedparser_parse cfg default_interval most_recent_item
         nets1 m).
Proof. unfold poll_cycles. by rewrite foldl_app. Qed.

End PollerFacts.

(** * The claims *)

Lemma reaches_or_stuck v keys :
  (∃ u, reaches v keys u)
  ∨ ∃ before key after u,
      keys = before ++ key :: after ∧ reaches v before u
      ∧ Py.isinstance_dict u = false.
Proof.
  revert v. induction keys as [|key keys IH]; intros v.
  - left. exists v. constructor.
  - destruct (Py.isinstance_dict v) eqn:Hd.
    + destruct v; try discriminate Hd.
      destruct (IH (default VNone (d !! key)))
        as [[u Hu] | (before & k & after & u & -> & Hu & Hnd)].
      * left. exists u. by constructor.
      * right. exists (key :: before), k, after, u.
        split; [done |]. split; [by constructor | done].
    + right. exists [], key, keys, v. split; [done |]. split; [constructor | done].
Qed.

(** C5.  Field projection of a dotted path: an unset or empty path gives
    [None]; a path along which some value before the last key is absent or
    is not a dictionary gives [None]; a path that can be walked to its end
    gives the value reached there; and every path is of one of the last two
    kinds. *)
Theorem project_dotted_path (e : entry) (path : string) :
  project e None = Ok VNone
  ∧ project e (Some "") = Ok VNone
  ∧ (∀ before key after u,
       path ≠ "" → Py.split "." path = before ++ key :: after →
       reaches (VDict e) before u → Py.isinstance_dict u = false →
       project e (Some path) = Ok VNone)
  ∧ (∀ v,
       path ≠ "" → reaches (VDict e) (Py.split "." path) v →
       project e (Some path) = Ok v)
  ∧ ((∃ v, reaches (VDict e) (Py.split "." path) v)
     ∨ ∃ before key after u,
         Py.split "." path = before ++ key :: after
         ∧ reaches (VDict e) before u ∧ Py.isinstance_dict u = false).
Proof.
  split; [done |]. split; [done |]. split; [| split].
  - intros before key after u Hne Hsplit Hreach Hu.
    unfold project, project_keys. rewrite content_tags_keys_truthy by done.
    unfold content_tags_keys. destruct path as [|c path]; [done |].
    cbn [Py.truthy_str]. rewrite Hsplit.
    by apply get_nested_value_stuck with (u := u).
  - intros v Hne Hreach.
    unfold project, project_keys. rewrite content_tags_keys_truthy by done.
    unfold content_tags_keys. destruct path as [|c path]; [done |].
    cbn [Py.truthy_str]. by apply get_nested_value_reaches.
  - apply reaches_or_stuck.
Qed.

Lemma project_dotted_path_witness :
  project Scenario.tagged (Some "tags.label") = Ok (VStr "news")
  ∧ project Scenario.untagged (Some "tags.label") = Ok VNone.
Proof.
  split.
  - apply (proj1 (proj2 (proj2 (proj2
      (project_dotted_path Scenario.tagged "tags.label"))))); [done |].
    vm_compute. apply reaches_cons. vm_compute. apply reaches_cons.
    vm_compute. apply reaches_nil.
  - apply (proj1 (proj2 (proj2
      (project_dotted_path Scenario.untagged "tags.label")))
      ["tags"] "label" [] VNone); [done | reflexivity | | reflexivity].
    vm_compute. apply reaches_cons. vm_compute. apply reaches_nil.
Defined.

(** C6.  [get_nested_value] is total and repeatable: on every value and
    every list of keys it returns a result and raises nothing, the result
    does not depend on the state of the poller, the state is left as it was,
    and two calls in a row return the same result twice. *)
Theorem get_nested_value_total_repeatable (v : value) (keys : list string) :
  ∃ r,
    get_nested_value v keys = Ok r
    ∧ ∀ m : machine,
        lift (get_nested_value v keys) m = (m, Ok r)
        ∧ bind (lift (get_nested_value v keys))
            (λ r1, bind (lift (get_nested_value v keys))
                     (λ r2, ret (r1, r2))) m
          = (m, Ok (r, r)).
Proof.
  destruct (get_nested_value_total v keys) as [r Hr]. exists r.
  split; [done |]. intros m. unfold bind, lift, ret. by rewrite Hr.
Qed.

(** C8.  The search filter passes an entry exactly when no search string is
    configured or the search string occurs, case-sensitively, in the
    entry's summary; "python" is not found in "A post about Python tips"
    and is found in "python rocks". *)
Theorem search_filter_spec :
  (∀ (search : option string) (e : entry),
     (∀ v, e !! "summary" = Some v → ∃ s, v = VStr s) →
     passes_search search e = Ok true
     ↔ search = None
       ∨ ∃ needle summary,
           search = Some needle ∧ e !! "summary" = Some (VStr summary)
           ∧ is_substring needle summary)
  ∧ passes_search (Some "python") Scenario.capital_item = Ok false
  ∧ passes_search (Some "python") Scenario.new_item = Ok true.
Proof.
  split; [| by vm_compute].
  intros search e Hstr. unfold passes_search, Py.getattr.
  destruct search as [needle|]; [| split; [by left | done]].
  destruct (e !! "summary") as [v|] eqn:Hv.
  - destruct (Hstr v eq_refl) as [s ->]. simpl. split.
    + intros [= H]. right. exists needle, s. by rewrite <- str_contains_iff.
    + intros [? | (n & s' & [= <-] & [= <-] & H)]; [done |].
      f_equal. by apply str_contains_iff.
  - split; [done |]. intros [? | (n & s' & _ & ? & _)]; done.
Qed.

Lemma search_filter_spec_witness :
  (∀ v, Scenario.new_item !! "summary" = Some v → ∃ s, v = VStr s)
  ∧ passes_search (Some "rocks") Scenario.new_item = Ok true.
Proof.
  assert (H : ∀ v, Scenario.new_item !! "summary" = Some v → ∃ s, v = VStr s).
  { intros v Hv. vm_compute in Hv. injection Hv as <-. by eexists. }
  split; [exact H |].
  apply (proj1 search_filter_spec (Some "rocks") Scenario.new_item H).
  right. exists "rocks", "python rocks". split; [done |]. split; [by vm_compute |].
  by exists "python ", "".
Defined.

Lemma poll_cycle_clock parse cfg d mri net m :
  clock (poll_cycle parse cfg d mri net m)
  = clock m + Z.max 0 (effective_interval cfg d).
Proof.
  destruct (poll_cycle_cases parse cfg d mri net m)
    as [[_ ->] | (text & m' & r & -> & Ht & Hp & ->)]; [done |].
  destruct (process_feed_outcome parse cfg mri text m)
    as (m1 & r1 & H1 & _ & Hc & _).
  rewrite Hp in H1. injection H1 as <- <-. simpl. by rewrite Hc.
Qed.

(** C10, as the code has it.  The interval of a feed is its own [interval]
    when that is set and not 0, and the global default when it is unset or
    0.  It is 0 exactly when the global default is 0 and the feed's own
    interval is unset or 0: a feed's own 0 is never used as such, but a
    global default of 0 is.  Every iteration of the loop sleeps for this
    interval, and for no time at all when it is not positive. *)
Theorem effective_interval_fallback (cfg : feed_config) (default_interval : Z) :
  (∀ n, cfg_interval cfg = Some n → n ≠ 0 →
        effective_interval cfg default_interval = n)
  ∧ (cfg_interval cfg = None ∨ cfg_interval cfg = Some 0 →
     effective_interval cfg default_interval = default_interval)
  ∧ (effective_interval cfg default_interval = 0
     ↔ default_interval = 0
       ∧ (cfg_interval cfg = None ∨ cfg_interval cfg = Some 0))
  ∧ (∀ parse mri net m,
       clock (poll_cycle parse cfg default_interval mri net m)
       = clock m + Z.max 0 (effective_interval cfg default_interval)).
Proof.
  unfold effective_interval, Py.truthy_int. split; [| split; [| split]].
  - intros n -> Hn. by destruct (Z.eqb_spec n 0).
  - by intros [-> | ->].
  - destruct (cfg_interval cfg) as [n|].
    + destruct (Z.eqb_spec n 0) as [->|Hn]; simpl.
      * split; [intros ->; auto | by intros [-> _]].
      * split; [done |]. intros [_ [? | [= ?]]]; done.
    + split; [intros ->; auto | by intros [-> _]].
  - intros. apply poll_cycle_clock.
Qed.

Lemma effective_interval_fallback_witness :
  effective_interval Scenario.documented 7200 = 30
  ∧ effective_interval Scenario.hasty 7200 = 7200
  ∧ effective_interval Scenario.plain 7200 = 7200.
Proof.
  split; [| split].
  - apply (proj1 (effective_interval_fallback Scenario.documented 7200) 30);
      [reflexivity | lia].
  - apply (proj1 (proj2 (effective_interval_fallback Scenario.hasty 7200))).
    right. reflexivity.
  - apply (proj1 (proj2 (effective_interval_fallback Scenario.plain 7200))).
    left. reflexivity.
Defined.

(** C10 as stated fails.  With a global default of 0, a feed without an
    interval of its own, and one whose own interval is 0, both have the
    interval 0, and an iteration of the first does not advance the clock;
    a feed whose own interval is negative sleeps for no time either. *)
Lemma effective_interval_zero_counterexample :
  effective_interval Scenario.plain 0 = 0
  ∧ effective_interval Scenario.hasty 0 = 0
  ∧ clock (poll_cycle Scenario.parse Scenario.plain 0 false
             (HttpResponse 200 "new-old") Scenario.steady_machine)
    = clock Scenario.steady_machine
  ∧ clock (poll_cycle Scenario.parse
             (mk_feed_config "http://example.com/rss3" None None (Some (-5))
                None)
             7200 false (HttpResponse 200 "new-old") Scenario.steady_machine)
    = clock Scenario.steady_machine.
Proof. vm_compute. repeat split. Qed.

(** C7.  With [most_recent_item] off and no watermark, a poll that fetches
    and parses a document puts nothing on the queue and sets the watermark
    to the feed-level time of the document; so does the first such poll of
    a feed, whatever number of failed polls came before it. *)
Theorem first_poll_without_most_recent_item parse cfg d text feed :
  text ≠ "" → parse text = Ok feed →
  (∀ m, last_updated m = None →
     let m' := poll_cycle parse cfg d false (HttpResponse 200 text) m in
     queue m' = queue m ∧ last_updated m' = fresh_watermark feed
     ∧ first_poll m' = first_poll m)
  ∧ (∀ q failures, Forall (cycle_fails parse) failures →
     let m' :=
       poll_feed parse cfg d false q (failures ++ [HttpResponse 200 text]) in
     queue m' = q ∧ last_updated m' = fresh_watermark feed).
Proof.
  intros Ht Hp.
  assert (Hone : ∀ m, last_updated m = None →
     let m' := poll_cycle parse cfg d false (HttpResponse 200 text) m in
     queue m' = queue m ∧ last_updated m' = fresh_watermark feed
     ∧ first_poll m' = first_poll m).
  { intros m Hm m'. subst m'. rewrite poll_cycle_data by done.
    rewrite (process_feed_idle _ _ _ _ _ _ Hp); [done | | done].
    unfold cold_start_pending. by rewrite andb_false_r. }
  split; [exact Hone |].
  intros q failures Hfail m'. subst m'. unfold poll_feed.
  rewrite poll_cycles_app.
  destruct (failed_cycles_frame parse cfg d false failures (initial_machine q) Hfail)
    as (Hw & _ & Hq).
  simpl in Hw, Hq. cbn [poll_cycles foldl].
  destruct (Hone _ Hw) as (-> & -> & _). by rewrite Hq.
Qed.

Lemma first_poll_without_most_recent_item_witness :
  let m' :=
    poll_feed Scenario.parse Scenario.plain 7200 false []
      [HttpException; HttpResponse 503 "busy"; HttpResponse 200 "raises";
       HttpResponse 200 "new-old"] in
  queue m' = [] ∧ last_updated m' = Some (Scenario.day 9).
Proof.
  apply (proj2 (first_poll_without_most_recent_item Scenario.parse
                  Scenario.plain 7200 "new-old"
                  (mk_parsed_feed (Some (Some (Scenario.day 9)))
                     [Scenario.new_item; Scenario.old_item])
                  ltac:(discriminate) eq_refl) []
           [HttpException; HttpResponse 503 "busy"; HttpResponse 200 "raises"]).
  apply Forall_cons_2; [by left |].
  apply Forall_cons_2; [by left |].
  apply Forall_cons_2; [| apply Forall_nil_2].
  right. exists "raises", ParserError. split; reflexivity.
Defined.

Lemma snoc_neq {A} (l : list A) (x : A) : l ++ [x] ≠ l.
Proof.
  intros H. apply (f_equal length) in H. rewrite length_app in H.
  simpl in H. lia.
Qed.

(** C3, as the code has it.  A cycle whose fetch yields no data, or whose
    document makes the parser raise, leaves the watermark as it was.  A
    cycle that fetches and parses a document and logs no error sets the
    watermark to what line 132 reads from the document: the feed-level time
    when the document has one, [None] when it has none. *)
Theorem watermark_after_cycle parse cfg d mri net m :
  let m' := poll_cycle parse cfg d mri net m in
  (fetch_result net = "" → last_updated m' = last_updated m)
  ∧ (∀ text x,
       net = HttpResponse 200 text → parse text = Raise x →
       last_updated m' = last_updated m)
  ∧ (∀ text feed,
       net = HttpResponse 200 text → text ≠ "" → parse text = Ok feed →
       log m' = log m →
       last_updated m' = fresh_watermark feed
       ∧ (∀ t, feed_updated_parsed feed = Some (Some t) →
               last_updated m' = Some t)
       ∧ (feed_updated_parsed feed = None → last_updated m' = None)).
Proof.
  intros m'. subst m'. split; [| split].
  - intros Hf. by apply failed_cycle_frame; left.
  - intros text x -> Hx. apply failed_cycle_frame. right. by exists text, x.
  - intros text feed -> Ht Hp.
    destruct (poll_cycle_cases parse cfg d mri (HttpResponse 200 text) m)
      as [[Hf _] | (text' & m1 & r & [= <-] & _ & Hrun & ->)]; [done |].
    destruct (process_feed_outcome parse cfg mri text m)
      as (m2 & r2 & H2 & Hlog & _ & _ & Hr).
    rewrite Hrun in H2. injection H2 as <- <-. simpl. rewrite Hlog.
    destruct r as [[]|x].
    + destruct Hr as (feed' & Hp' & ->). rewrite Hp in Hp'.
      injection Hp' as <-. intros _. unfold fresh_watermark.
      split; [done |]. split; [by intros t -> | by intros ->].
    + intros H. by apply snoc_neq in H.
Qed.

Lemma watermark_after_cycle_witness :
  let m' :=
    poll_cycle Scenario.parse Scenario.plain 7200 false
      (HttpResponse 200 "new-old") Scenario.steady_machine in
  log m' = log Scenario.steady_machine
  ∧ last_updated m' = Some (Scenario.day 9).
Proof.
  split; [reflexivity |].
  apply (proj1 (proj2 (proj2 (watermark_after_cycle Scenario.parse
           Scenario.plain 7200 false (HttpResponse 200 "new-old")
           Scenario.steady_machine))
           "new-old"
           (mk_parsed_feed (Some (Some (Scenario.day 9)))
              [Scenario.new_item; Scenario.old_item])
           eq_refl ltac:(discriminate) eq_refl eq_refl)).
Defined.

(** C3 as stated fails.  The watermark is day 5 and the document fetched is
    malformed: it parses to a feed without a feed-level time and without
    entries.  The cycle logs no error and the watermark is not left as it
    was, it is [None] afterwards. *)
Lemma watermark_lost_counterexample :
  let m' :=
    poll_cycle Scenario.parse Scenario.plain 7200 false
      (HttpResponse 200 "<<garbage") Scenario.steady_machine in
  Scenario.parse "<<garbage" = Ok (mk_parsed_feed None [])
  ∧ last_updated Scenario.steady_machine = Some (Scenario.day 5)
  ∧ last_updated m' = None
  ∧ log m' = [].
Proof. vm_compute. repeat split. Qed.

Lemma tuple_gtb_irrefl a : Py.tuple_gtb a a = false.
Proof. induction a as [|x a IH]; [done |]. simpl. by rewrite Z.eqb_refl. Qed.

Lemma time_gtb_irrefl t : Py.time_gtb t t = false.
Proof. apply tuple_gtb_irrefl. Qed.

Lemma selected_iff cfg w e :
  selected cfg w e = true
  ↔ ∃ t, e !! "updated_parsed" = Some (VTime t) ∧ Py.time_gtb t w = true
         ∧ passes_search (cfg_search cfg) e = Ok true.
Proof.
  unfold selected, steady_condition, Py.getattr. cbv zeta.
  destruct (e !! "updated_parsed") as [v|]; [| split; [done | by intros (t & ? & _)]].
  destruct v as [| | | |t| |];
    try (split; [done | by intros (t' & ? & _)]).
  simpl. destruct (Py.time_gtb t w) eqn:Hgt.
  - destruct (passes_search (cfg_search cfg) e) as [b|x] eqn:Hs.
    + split.
      * intros ->. by exists t.
      * by intros (t' & _ & _ & [= ->]).
    + split; [done | by intros (t' & _ & _ & ?)].
  - split; [done |]. intros (t' & [= <-] & Hgt' & _). congruence.
Qed.

(** C1, as the code has it.  In a cycle that fetches and parses a document
    while the watermark is set, the branch of the first poll is not taken
    and the condition of the loop evaluates on every entry, the events put
    on the queue are those of the entries that the loop selects, in the
    order of the parser; the loop selects an entry exactly when its
    [updated_parsed] is a time strictly greater than the watermark and the
    entry passes the search filter; no time is greater than itself. *)
Theorem steady_selection parse cfg d mri text feed w m :
  text ≠ "" → parse text = Ok feed →
  last_updated m = Some w →
  cold_start_pending mri m feed = false →
  Forall (evaluates cfg w) (entries feed) →
  let m' := poll_cycle parse cfg d mri (HttpResponse 200 text) m in
  queue m'
  = queue m ++ (event_of cfg <$> List.filter (selected cfg w) (entries feed))
  ∧ (∀ e, selected cfg w e = true
          ↔ ∃ t, e !! "updated_parsed" = Some (VTime t)
                 ∧ Py.time_gtb t w = true
                 ∧ passes_search (cfg_search cfg) e = Ok true)
  ∧ (∀ t, Py.time_gtb t t = false).
Proof.
  intros Ht Hp Hw Hc Hall m'. subst m'.
  split; [| split; [apply selected_iff | apply time_gtb_irrefl]].
  rewrite poll_cycle_data by done.
  rewrite (process_feed_steady _ _ _ _ _ _ _ Hp Hc Hw).
  by rewrite (steady_loop_ok _ _ _ _ Hall).
Qed.

Lemma steady_selection_witness :
  let m' :=
    poll_cycle Scenario.parse Scenario.documented 7200 true
      (HttpResponse 200 "old-new") Scenario.steady_machine in
  queue m' = [event_of Scenario.documented Scenario.new_item].
Proof.
  apply (proj1 (steady_selection Scenario.parse Scenario.documented 7200 true
           "old-new"
           (mk_parsed_feed (Some (Some (Scenario.day 9)))
              [Scenario.old_item; Scenario.new_item])
           (Scenario.day 5) Scenario.steady_machine
           ltac:(discriminate) eq_refl eq_refl eq_refl
           ltac:(repeat (apply Forall_cons_2 || apply Forall_nil_2);
                 eexists; vm_compute; reflexivity))).
Defined.

(** C1 as stated fails.  With [most_recent_item] on, a first document
    without entries sets the watermark (day 5) and leaves the branch of
    the first poll pending; the next document is then handled by that
    branch: its first entry, of day 3, is put on the queue and its second
    entry, of day 8, is not, although the loop would select the second and
    not the first. *)
Lemma steady_selection_counterexample :
  last_updated
    (poll_feed Scenario.parse Scenario.plain 7200 true []
       [HttpResponse 200 "empty"])
  = Some (Scenario.day 5)
  ∧ queue
      (poll_feed Scenario.parse Scenario.plain 7200 true []
         [HttpResponse 200 "empty"; HttpResponse 200 "old-new"])
    = [event_of Scenario.plain Scenario.old_item]
  ∧ selected Scenario.plain (Scenario.day 5) Scenario.old_item = false
  ∧ selected Scenario.plain (Scenario.day 5) Scenario.new_item = true.
Proof. vm_compute. repeat split. Qed.



(** C4.  The claim is not what the code does.  The document has an entry
    without [updated_parsed] followed by an entry of day 8 that contains
    the search string; the watermark is day 5.  The loop would select the
    second entry, but the first one raises [AttributeError]: nothing is put
    on the queue, the error is logged, and the watermark stays at day 5
    instead of moving to the feed-level time of day 9.  The same document
    fetched again gives the same cycle again. *)
Theorem undated_entry_blocks_cycle :
  let net := HttpResponse 200 "undated-new" in
  let m' :=
    poll_cycle Scenario.parse Scenario.documented 7200 false net
      Scenario.steady_machine in
  let m'' := poll_cycle Scenario.parse Scenario.documented 7200 false net m' in
  Scenario.parse "undated-new"
  = Ok (mk_parsed_feed (Some (Some (Scenario.day 9)))
          [Scenario.undated "x" "python"; Scenario.new_item])
  ∧ selected Scenario.documented (Scenario.day 5) Scenario.new_item = true
  ∧ queue m' = []
  ∧ last_updated m' = Some (Scenario.day 5)
  ∧ log m' = [LogPollError "http://example.com/rss1" AttributeError]
  ∧ queue m'' = []
  ∧ last_updated m'' = Some (Scenario.day 5).
Proof. vm_compute. repeat split. Qed.

Lemma poll_cycle_first_poll_false parse cfg d mri net m :
  first_poll m = false → first_poll (poll_cycle parse cfg d mri net m) = false.
Proof.
  intros Hf.
  destruct (poll_cycle_cases parse cfg d mri net m)
    as [[_ ->] | (text & m' & r & -> & Ht & Hp & ->)]; [done |].
  destruct (process_feed_outcome parse cfg mri text m)
    as (m1 & r1 & H1 & _ & _ & Hfp & _).
  rewrite Hp in H1. injection H1 as <- <-. simpl. by apply Hfp.
Qed.

(** C2, as the code has it.  While [first_poll] is true and
    [most_recent_item] is on, a cycle that parses a document with at least
    one entry, on whose first entry the search filter evaluates, puts on
    the queue the event of that first entry if it passes the filter and
    nothing otherwise, sets [first_poll] to false and sets the watermark.
    A document without entries leaves [first_poll] as it was.  Once
    [first_poll] is false it stays false in all later cycles. *)
Theorem cold_start_once parse cfg d :
  (∀ text feed first rest m b,
     text ≠ "" → parse text = Ok feed →
     first_poll m = true → entries feed = first :: rest →
     passes_search (cfg_search cfg) first = Ok b →
     let m' := poll_cycle parse cfg d true (HttpResponse 200 text) m in
     queue m' = queue m ++ (if b then [event_of cfg first] else [])
     ∧ first_poll m' = false
     ∧ last_updated m' = fresh_watermark feed)
  ∧ (∀ mri text feed m,
       text ≠ "" → parse text = Ok feed → entries feed = [] →
       first_poll (poll_cycle parse cfg d mri (HttpResponse 200 text) m)
       = first_poll m)
  ∧ (∀ mri nets m,
       first_poll m = false →
       first_poll (poll_cycles parse cfg d mri nets m) = false).
Proof.
  split; [| split].
  - intros text feed first rest m b Ht Hp Hf He Hb m'. subst m'.
    rewrite poll_cycle_data by done.
    rewrite (process_feed_cold _ _ _ _ _ _ _ _ Hp Hf eq_refl He), Hb. done.
  - intros mri text feed m Ht Hp He.
    rewrite poll_cycle_data by done.
    assert (Hc : cold_start_pending mri m feed = false).
    { unfold cold_start_pending. rewrite He. simpl. by rewrite andb_false_r. }
    destruct (last_updated m) as [w|] eqn:Hw.
    + rewrite (process_feed_steady _ _ _ _ _ _ _ Hp Hc Hw), He. done.
    + by rewrite (process_feed_idle _ _ _ _ _ _ Hp Hc Hw).
  - intros mri nets. induction nets as [|net nets IH]; intros m Hf; [done |].
    simpl. apply IH. by apply poll_cycle_first_poll_false.
Qed.

Lemma cold_start_once_witness :
  let m' :=
    poll_feed Scenario.parse Scenario.documented 7200 true []
      [HttpResponse 200 "new-old"] in
  queue m' = [event_of Scenario.documented Scenario.new_item]
  ∧ first_poll m' = false
  ∧ last_updated m' = Some (Scenario.day 9).
Proof.
  apply (proj1 (cold_start_once Scenario.parse Scenario.documented 7200)
           "new-old"
           (mk_parsed_feed (Some (Some (Scenario.day 9)))
              [Scenario.new_item; Scenario.old_item])
           Scenario.new_item [Scenario.old_item] (initial_machine []) true
           ltac:(discriminate) eq_refl eq_refl eq_refl eq_refl).
Defined.

(** C2 as stated fails.  With [most_recent_item] on, the first poll
    succeeds on a document without entries; [first_poll] is still true
    afterwards, and it is the second poll that takes the branch of the
    first poll. *)
Lemma cold_start_counterexample :
  Scenario.parse "empty" = Ok (mk_parsed_feed (Some (Some (Scenario.day 5))) [])
  ∧ first_poll
      (poll_feed Scenario.parse Scenario.plain 7200 true []
         [HttpResponse 200 "empty"])
    = true
  ∧ first_poll
      (poll_feed Scenario.parse Scenario.plain 7200 true []
         [HttpResponse 200 "empty"; HttpResponse 200 "old-new"])
    = false.
Proof. vm_compute. repeat split. Qed.

(** * Further properties of the code *)

(** ** [get_nested_value] *)

(** X1.  Walking a path in two parts is walking it whole: the result for
    [keys1 ++ keys2] is the result for [keys2] from the value that [keys1]
    leads to.  A walk that has stopped at a value that is not a dictionary
    stays at [None] whatever keys follow. *)
Theorem get_nested_value_app v keys1 keys2 :
  get_nested_value v (keys1 ++ keys2)
  = match get_nested_value v keys1 with
    | Ok r => get_nested_value r keys2
    | Raise x => Raise x
    end.
Proof.
  revert v. induction keys1 as [|key keys1 IH]; intros v; [done |].
  destruct v; simpl; try (by rewrite get_nested_value_none). apply IH.
Qed.

(** X2.  A result other than [None] is never made up: it is the value
    found by looking up every key of the path in turn, each time in a
    dictionary. *)
Theorem get_nested_value_sound v keys r :
  get_nested_value v keys = Ok r → r ≠ VNone → reaches v keys r.
Proof.
  intros Hr Hne.
  destruct (reaches_or_stuck v keys)
    as [[u Hu] | (before & key & after & u & -> & Hu & Hnd)].
  - rewrite (get_nested_value_reaches _ _ _ Hu) in Hr. by injection Hr as <-.
  - rewrite (get_nested_value_stuck _ _ _ _ _ Hu Hnd) in Hr.
    by injection Hr as <-.
Qed.

Lemma get_nested_value_sound_witness :
  reaches (VDict Scenario.tagged) ["tags"; "label"] (VStr "news").
Proof.
  apply (get_nested_value_sound (VDict Scenario.tagged) ["tags"; "label"]
           (VStr "news")); [by vm_compute | discriminate].
Defined.

(** ** The keys of a dotted path (line 102) *)

Lemma concat_cons_cons sep x y l :
  String.concat sep (x :: y :: l) = x +:+ sep +:+ String.concat sep (y :: l).
Proof. reflexivity. Qed.

(** X3.  Splitting loses nothing: the pieces of [s.split(sep)] joined with
    the separator are [s] again. *)
Theorem split_concat sep s :
  String.concat (String sep "") (Py.split sep s) = s.
Proof.
  induction s as [|c s IH]; [done |]. simpl.
  destruct (Ascii.eqb_spec c sep) as [->|Hne].
  - pose proof (split_not_nil sep s) as Hnil.
    destruct (Py.split sep s) as [|y l]; [done |].
    rewrite concat_cons_cons, IH. done.
  - pose proof (split_not_nil sep s) as Hnil.
    destruct (Py.split sep s) as [|y l]; [done |].
    destruct l as [|z l].
    + simpl in *. by rewrite IH.
    + rewrite concat_cons_cons. rewrite concat_cons_cons in IH.
      by rewrite <- IH.
Qed.

Lemma sep_in_nil sep : ¬ is_substring (String sep "") "".
Proof. intros (before & after & H). by destruct before. Qed.

Lemma sep_in_cons sep c k :
  is_substring (String sep "") (String c k) →
  c = sep ∨ is_substring (String sep "") k.
Proof.
  intros (before & after & H). destruct before as [|b before]; simpl in H.
  - left. by injection H.
  - right. injection H as -> ->. by exists before, after.
Qed.

Lemma split_pieces_free sep s :
  Forall (λ k, ¬ is_substring (String sep "") k) (Py.split sep s).
Proof.
  induction s as [|c s IH]; simpl.
  - apply Forall_cons_2; [apply sep_in_nil | apply Forall_nil_2].
  - destruct (Ascii.eqb_spec c sep) as [->|Hne].
    + apply Forall_cons_2; [apply sep_in_nil | done].
    + destruct (Py.split sep s) as [|y l].
      * apply Forall_cons_2; [| apply Forall_nil_2].
        intros [?|H]%sep_in_cons; [done | by apply sep_in_nil in H].
      * apply Forall_cons in IH as [Hy Hl]. apply Forall_cons_2; [| done].
        by intros [?|H]%sep_in_cons.
Qed.

(** X4.  No key that a [content_tags] path is split into contains a dot: a
    field whose own name has a dot in it cannot be addressed by any path. *)
Theorem content_tags_keys_no_dot path :
  Forall (λ key, ¬ is_substring "." key) (content_tags_keys path).
Proof.
  unfold content_tags_keys. destruct path as [p|]; [| apply Forall_nil_2].
  destruct (Py.truthy_str p); [| apply Forall_nil_2].
  apply (split_pieces_free "." p).
Qed.

(** ** The event put on the queue (lines 117-121, 126-130) *)

(** X5.  Every event carries [feed_name], the configured name or the empty
    string, in place of any [feed_name] the entry had.  It carries the
    projected [content_tags] when the projection is not [None]; when it is
    [None] the entry's own [content_tags], if any, is left alone.  All other
    fields of the entry are passed on unchanged. *)
Theorem event_fields cfg (e : entry) :
  event_of cfg e !! "feed_name" = Some (VStr (feed_name_of cfg))
  ∧ (∀ v, project e (cfg_content_tags cfg) = Ok v → v ≠ VNone →
          event_of cfg e !! "content_tags" = Some v)
  ∧ (project e (cfg_content_tags cfg) = Ok VNone →
     event_of cfg e !! "content_tags" = e !! "content_tags")
  ∧ (∀ key : string, key ≠ "feed_name" → key ≠ "content_tags" →
          event_of cfg e !! key = e !! key).
Proof.
  unfold event_of, decorate, project.
  destruct (project_keys_total e (content_tags_keys (cfg_content_tags cfg)))
    as [r ->].
  cbv zeta. split; [by rewrite lookup_insert_eq |]. split; [| split].
  - intros v [= <-] Hv. rewrite lookup_insert_ne by done.
    destruct r; [by destruct Hv | ..]; cbn [Py.is_none];
      by rewrite lookup_insert_eq.
  - intros [= ->]. by rewrite lookup_insert_ne.
  - intros key Hf Hc. rewrite lookup_insert_ne by done.
    destruct (Py.is_none r); [done |]. by rewrite lookup_insert_ne.
Qed.

Lemma event_fields_witness :
  event_of Scenario.documented Scenario.tagged !! "content_tags"
  = Some (VStr "news")
  ∧ event_of Scenario.documented Scenario.untagged !! "content_tags" = None
  ∧ event_of Scenario.documented Scenario.tagged !! "id" = Some (VStr "t").
Proof.
  split; [| split].
  - apply (proj1 (proj2 (event_fields Scenario.documented Scenario.tagged)));
      [by vm_compute | discriminate].
  - rewrite (proj1 (proj2 (proj2
      (event_fields Scenario.documented Scenario.untagged))));
      by vm_compute.
  - rewrite (proj2 (proj2 (proj2
      (event_fields Scenario.documented Scenario.tagged))) "id");
      [by vm_compute | discriminate | discriminate].
Defined.

(** ** One iteration and runs of iterations *)

Lemma machine_eta m :
  mk_machine (last_updated m) (first_poll m) (queue m) (log m) (clock m) = m.
Proof. by destruct m. Qed.

Section Effect.

Variable feedparser_parse : string → result parsed_feed.
Variable cfg : feed_config.
Variable default_interval : Z.
Variable most_recent_item : bool.

(** What [process_feed] does is fixed by the document and the two locals:
    it appends events to the queue and sets the locals, and reads nothing
    else of the machine. *)
Lemma process_feed_effect text lu fp :
  ∃ (es : list entry) (lu' : option struct_time) (fp' : bool) (r : result unit),
    ∀ m, last_updated m = lu → first_poll m = fp →
      process_feed feedparser_parse cfg most_recent_item text m
      = (mk_machine lu' fp' (queue m ++ (event_of cfg <$> es)) (log m)
           (clock m), r).
Proof.
  destruct (feedparser_parse text) as [feed|x] eqn:Hp.
  2: { exists [], lu, fp, (Raise x). intros m <- <-.
       rewrite (process_feed_parse_raise _ _ _ _ _ _ Hp). simpl.
       by rewrite app_nil_r, machine_eta. }
  destruct (fp && most_recent_item && Py.truthy_list (entries feed)) eqn:Hc.
  - apply andb_true_iff in Hc as [Hc He]. apply andb_true_iff in Hc as [-> Hm].
    destruct (entries feed) as [|first rest] eqn:Hes; [done |].
    destruct (passes_search (cfg_search cfg) first) as [b|x] eqn:Hs.
    + exists (if b then [first] else []), (fresh_watermark feed), false, (Ok tt).
      intros m _ Hfp.
      rewrite (process_feed_cold _ _ _ _ _ _ _ _ Hp Hfp Hm Hes), Hs.
      by destruct b.
    + exists [], lu, true, (Raise x). intros m <- Hfp.
      rewrite (process_feed_cold _ _ _ _ _ _ _ _ Hp Hfp Hm Hes), Hs. simpl.
      by rewrite app_nil_r, <- Hfp, machine_eta.
  - destruct lu as [w|].
    + destruct (steady_loop_cases cfg w (entries feed))
        as [Hall | (before & bad & after & x & He & Hall & Hbad)].
      * exists (List.filter (selected cfg w) (entries feed)),
          (fresh_watermark feed), fp, (Ok tt).
        intros m Hlu <-.
        rewrite (process_feed_steady _ _ _ _ _ _ _ Hp Hc Hlu).
        by rewrite (steady_loop_ok _ _ _ _ Hall).
      * exists (List.filter (selected cfg w) before), (Some w), fp, (Raise x).
        intros m Hlu <-.
        rewrite (process_feed_steady _ _ _ _ _ _ _ Hp Hc Hlu), He.
        rewrite (steady_loop_abort _ _ _ _ _ _ _ Hall Hbad).
        unfold enqueue. by rewrite Hlu.
    + exists [], (fresh_watermark feed), fp, (Ok tt). intros m Hlu <-.
      rewrite (process_feed_idle _ _ _ _ _ _ Hp Hc Hlu).
      unfold set_last_updated. simpl. by rewrite app_nil_r.
Qed.

Lemma poll_cycle_effect net lu fp :
  ∃ (es : list entry) (lu' : option struct_time) (fp' : bool)
    (errors : list log_record),
    ∀ m, last_updated m = lu → first_poll m = fp →
      poll_cycle feedparser_parse cfg default_interval most_recent_item net m
      = mk_machine lu' fp' (queue m ++ (event_of cfg <$> es))
          (log m ++ errors)
          (clock m + Z.max 0 (effective_interval cfg default_interval)).
Proof.
  destruct (fetch_result net) as [|c text] eqn:Hf.
  - exists [], lu, fp, (fetch_log (cfg_url cfg) net ++ [LogNoData (cfg_url cfg)]).
    intros m <- <-. rewrite (poll_cycle_no_data _ _ _ _ _ _ Hf).
    unfold finish. simpl. by rewrite app_nil_r.
  - apply fetch_result_data in Hf as ->; [| done].
    destruct (process_feed_effect (String c text) lu fp)
      as (es & lu' & fp' & r & Hrun).
    exists es, lu', fp',
      (match r with Ok _ => [] | Raise x => [LogPollError (cfg_url cfg) x] end).
    intros m Hlu Hfp. rewrite poll_cycle_data by done.
    rewrite (Hrun m Hlu Hfp). by destruct r as [[]|x].
Qed.

Lemma poll_cycles_effect nets lu fp :
  ∃ (es : list entry) (lu' : option struct_time) (fp' : bool)
    (errors : list log_record),
    ∀ m, last_updated m = lu → first_poll m = fp →
      poll_cycles feedparser_parse cfg default_interval most_recent_item nets m
      = mk_machine lu' fp' (queue m ++ (event_of cfg <$> es))
          (log m ++ errors)
          (clock m
           + Z.of_nat (length nets)
             * Z.max 0 (effective_interval cfg default_interval)).
Proof.
  revert lu fp. induction nets as [|net nets IH]; intros lu fp.
  - exists [], lu, fp, []. intros m <- <-. simpl.
    rewrite !app_nil_r, Z.add_0_r. by rewrite machine_eta.
  - destruct (poll_cycle_effect net lu fp) as (es1 & lu1 & fp1 & errs1 & H1).
    destruct (IH lu1 fp1) as (es2 & lu2 & fp2 & errs2 & H2).
    exists (es1 ++ es2), lu2, fp2, (errs1 ++ errs2). intros m Hlu Hfp.
    cbn [poll_cycles foldl]. rewrite (H1 m Hlu Hfp).
    change (foldl _ ?m0 nets)
      with (poll_cycles feedparser_parse cfg default_interval
              most_recent_item nets m0).
    rewrite H2 by done. simpl queue. simpl log. simpl clock.
    rewrite fmap_app, !app_assoc. f_equal.
    cbn [length]. rewrite Nat2Z.inj_succ. lia.
Qed.

End Effect.

(** X6.  An iteration of the loop never ends in an exception: whatever the
    network answers and whatever the parser or the entries raise, the
    iteration returns normally, so the [while True] loop goes on. *)
Theorem poll_iteration_never_raises parse cfg d mri net m :
  ∃ m', poll_iteration parse cfg d mri net m = (m', Ok tt).
Proof.
  unfold poll_iteration, try_except. cbv zeta. unfold bind at 1.
  destruct (bind (fetch_rss_feed (cfg_url cfg) net) _ m) as [m1 [[]|x]];
    simpl; by eexists.
Qed.

Lemma event_of_feed_name cfg e :
  event_of cfg e !! "feed_name" = Some (VStr (feed_name_of cfg)).
Proof. unfold event_of, decorate. cbv zeta. by rewrite lookup_insert_eq. Qed.

(** X7.  A poller only ever appends to the queue: after any number of
    iterations the queue is the old queue followed by new events, and every
    new event carries the feed's name in [feed_name]. *)
Theorem queue_only_grows parse cfg d mri nets m :
  ∃ events,
    queue (poll_cycles parse cfg d mri nets m) = queue m ++ events
    ∧ Forall (λ ev : entry,
                ev !! "feed_name" = Some (VStr (feed_name_of cfg))) events.
Proof.
  destruct (poll_cycles_effect parse cfg d mri nets (last_updated m)
              (first_poll m)) as (es & lu' & fp' & errs & H).
  rewrite H by done. exists (event_of cfg <$> es). split; [done |].
  apply Forall_fmap, Forall_forall. intros e _. apply event_of_feed_name.
Qed.

(** X8.  A fetch that fails costs one cycle and nothing else.  On a
    transport exception, on a status other than 200, and on a 200 response
    with an empty body the iteration leaves the watermark, [first_poll] and
    the queue as they were, logs the failure (the empty body is logged as
    "no data" only) and sleeps the usual interval. *)
Theorem failed_fetch_cycle parse cfg d mri m :
  poll_cycle parse cfg d mri HttpException m
  = finish cfg d [LogFetchError (cfg_url cfg); LogNoData (cfg_url cfg)] m
  ∧ (∀ status text, status ≠ 200 →
       poll_cycle parse cfg d mri (HttpResponse status text) m
       = finish cfg d
           [LogFetchStatus (cfg_url cfg) status; LogNoData (cfg_url cfg)] m)
  ∧ poll_cycle parse cfg d mri (HttpResponse 200 "") m
    = finish cfg d [LogNoData (cfg_url cfg)] m.
Proof.
  split; [by rewrite poll_cycle_no_data | split].
  - intros status text Hs.
    assert (Hne : (status =? 200) = false) by by apply Z.eqb_neq.
    rewrite poll_cycle_no_data; simpl; by rewrite Hne.
  - by rewrite poll_cycle_no_data.
Qed.

Lemma failed_fetch_cycle_witness :
  poll_cycle Scenario.parse Scenario.plain 7200 true
    (HttpResponse 404 "old-new") Scenario.steady_machine
  = mk_machine (Some (Scenario.day 5)) false []
      [LogFetchStatus "http://example.com/rss" 404;
       LogNoData "http://example.com/rss"] 7200.
Proof.
  apply (proj1 (proj2 (failed_fetch_cycle Scenario.parse Scenario.plain 7200
                         true Scenario.steady_machine)) 404 "old-new").
  lia.
Defined.

(** X9.  The poller keeps a fixed pace: [n] iterations sleep [n] times the
    effective interval in all, whether they fail or succeed; there is no
    backoff after errors and no catching up. *)
Theorem clock_after_cycles parse cfg d mri nets m :
  clock (poll_cycles parse cfg d mri nets m)
  = clock m + Z.of_nat (length nets) * Z.max 0 (effective_interval cfg d).
Proof.
  destruct (poll_cycles_effect parse cfg d mri nets (last_updated m)
              (first_poll m)) as (es & lu' & fp' & errs & H).
  by rewrite H.
Qed.

(** X14.  A poller never reads the queue: started with the same watermark
    and [first_poll] on two different queues, the same network answers make
    it append the same events to both and end with the same watermark and
    [first_poll]. *)
Theorem poller_ignores_queue parse cfg d mri nets m1 m2 :
  last_updated m1 = last_updated m2 → first_poll m1 = first_poll m2 →
  ∃ events,
    queue (poll_cycles parse cfg d mri nets m1) = queue m1 ++ events
    ∧ queue (poll_cycles parse cfg d mri nets m2) = queue m2 ++ events
    ∧ last_updated (poll_cycles parse cfg d mri nets m1)
      = last_updated (poll_cycles parse cfg d mri nets m2)
    ∧ first_poll (poll_cycles parse cfg d mri nets m1)
      = first_poll (poll_cycles parse cfg d mri nets m2).
Proof.
  intros Hlu Hfp.
  destruct (poll_cycles_effect parse cfg d mri nets (last_updated m1)
              (first_poll m1)) as (es & lu' & fp' & errs & H).
  rewrite (H m1) by done. rewrite (H m2) by done.
  by exists (event_of cfg <$> es).
Qed.

Lemma poller_ignores_queue_witness :
  ∃ events,
    queue (poll_feed Scenario.parse Scenario.plain 7200 true []
             [HttpResponse 200 "new-old"]) = [] ++ events
    ∧ queue (poll_feed Scenario.parse Scenario.plain 7200 true [Scenario.bare]
               [HttpResponse 200 "new-old"]) = [Scenario.bare] ++ events.
Proof.
  destruct (poller_ignores_queue Scenario.parse Scenario.plain 7200 true
              [HttpResponse 200 "new-old"] (initial_machine [])
              (initial_machine [Scenario.bare]) eq_refl eq_refl)
    as (events & H1 & H2 & _).
  exists events. split; [exact H1 | exact H2].
Defined.

(** ** The order on times and the selection *)

Lemma tuple_gtb_asym a b :
  Py.tuple_gtb a b = true → Py.tuple_gtb b a = false.
Proof.
  revert b. induction a as [|x a IH]; intros [|y b]; simpl; try done.
  destruct (Z.eqb_spec x y) as [->|Hne].
  - rewrite Z.eqb_refl. apply IH.
  - destruct (Z.eqb_spec y x) as [->|_]; [done |].
    intros H%Z.ltb_lt. apply Z.ltb_ge. lia.
Qed.

Lemma tuple_gtb_trans a b c :
  Py.tuple_gtb a b = true → Py.tuple_gtb b c = true → Py.tuple_gtb a c = true.
Proof.
  revert b c. induction a as [|x a IH]; intros [|y b] [|z c]; simpl; try done.
  destruct (Z.eqb_spec x y) as [->|Hxy].
  - destruct (Z.eqb_spec y z) as [->|Hyz]; [apply IH | done].
  - intros Hgt%Z.ltb_lt. destruct (Z.eqb_spec y z) as [->|Hyz].
    + intros _. destruct (Z.eqb_spec x z) as [->|_]; [done |].
      by apply Z.ltb_lt.
    + intros Hgt'%Z.ltb_lt. destruct (Z.eqb_spec x z) as [->|_]; [lia |].
      apply Z.ltb_lt. lia.
Qed.

Lemma tuple_gtb_total a b :
  length a = length b →
  a = b ∨ Py.tuple_gtb a b = true ∨ Py.tuple_gtb b a = true.
Proof.
  revert b. induction a as [|x a IH]; intros [|y b] Hlen; simpl in *;
    try done; [by left |].
  destruct (Z.eqb_spec x y) as [->|Hxy].
  - rewrite Z.eqb_refl. destruct (IH b ltac:(lia)) as [-> | [H | H]]; auto.
  - destruct (Z.eqb_spec y x) as [->|_]; [done |]. right.
    destruct (Z.ltb_spec y x); [by left |]. right. apply Z.ltb_lt. lia.
Qed.

Lemma time_gtb_trans a b c :
  Py.time_gtb a b = true → Py.time_gtb b c = true → Py.time_gtb a c = true.
Proof. apply tuple_gtb_trans. Qed.

(** X10.  [>] on [struct_time] is a strict total order: of two times at
    most one is greater than the other, greater-than is transitive, and two
    different times are always comparable. *)
Theorem time_gtb_strict_total a b c :
  (Py.time_gtb a b = true → Py.time_gtb b a = false)
  ∧ (Py.time_gtb a b = true → Py.time_gtb b c = true →
     Py.time_gtb a c = true)
  ∧ (a = b ∨ Py.time_gtb a b = true ∨ Py.time_gtb b a = true).
Proof.
  split; [apply tuple_gtb_asym | split; [apply tuple_gtb_trans |]].
  destruct (tuple_gtb_total (time_tuple a) (time_tuple b)) as [H | H];
    [done | | by right].
  left. destruct a, b. by injection H as -> -> -> -> -> -> -> -> ->.
Qed.

Lemma time_gtb_strict_total_witness :
  Py.time_gtb (Scenario.day 3) (Scenario.day 8) = false
  ∧ Py.time_gtb (Scenario.day 9) (Scenario.day 3) = true.
Proof.
  split.
  - apply (proj1 (time_gtb_strict_total (Scenario.day 8) (Scenario.day 3)
                    (Scenario.day 3))). reflexivity.
  - apply (proj1 (proj2 (time_gtb_strict_total (Scenario.day 9)
                           (Scenario.day 8) (Scenario.day 3))));
      reflexivity.
Defined.

(** X11.  A later watermark selects less: an entry that the loop selects
    under a watermark is also selected under every earlier watermark. *)
Theorem selection_shrinks_with_watermark cfg earlier later e :
  Py.time_gtb later earlier = true →
  selected cfg later e = true → selected cfg earlier e = true.
Proof.
  intros Hw. rewrite !selected_iff. intros (t & Ht & Hgt & Hs).
  exists t. split; [done |]. split; [| done].
  by apply time_gtb_trans with later.
Qed.

Lemma selection_shrinks_with_watermark_witness :
  selected Scenario.documented (Scenario.day 3) Scenario.new_item = true.
Proof.
  apply (selection_shrinks_with_watermark Scenario.documented
           (Scenario.day 3) (Scenario.day 5) Scenario.new_item);
    reflexivity.
Defined.



(** ** Errors while entries are handled *)

(** X13.  When the search filter raises on the first entry in the branch
    of the first poll (the entry has no summary, say), the cycle puts
    nothing on the queue, logs the error and leaves [first_poll] true and
    the watermark as it was: the branch is taken again on the next
    document. *)
Theorem cold_start_error_retried parse cfg d text feed first rest x m :
  text ≠ "" → parse text = Ok feed →
  first_poll m = true → entries feed = first :: rest →
  passes_search (cfg_search cfg) first = Raise x →
  let m' := poll_cycle parse cfg d true (HttpResponse 200 text) m in
  queue m' = queue m ∧ first_poll m' = true
  ∧ last_updated m' = last_updated m
  ∧ log m' = log m ++ [LogPollError (cfg_url cfg) x].
Proof.
  intros Ht Hp Hf He Hx m'. subst m'. rewrite poll_cycle_data by done.
  by rewrite (process_feed_cold _ _ _ _ _ _ _ _ Hp Hf eq_refl He), Hx.
Qed.

Lemma cold_start_error_retried_witness :
  let m' :=
    poll_feed Scenario.parse_bare Scenario.documented 7200 true []
      [HttpResponse 200 "doc"] in
  queue m' = [] ∧ first_poll m' = true ∧ last_updated m' = None
  ∧ log m' = [LogPollError "http://example.com/rss1" AttributeError].
Proof.
  apply (cold_start_error_retried Scenario.parse_bare Scenario.documented
           7200 "doc"
           (mk_parsed_feed (Some (Some (Scenario.day 9)))
              [Scenario.bare; Scenario.old_item])
           Scenario.bare [Scenario.old_item] AttributeError
           (initial_machine [])
           ltac:(discriminate) eq_refl eq_refl eq_refl eq_refl).
Defined.



(** ** The search filter on the edge *)

Lemma str_contains_empty hay : Py.str_contains "" hay = true.
Proof. by destruct hay. Qed.

(** X16.  An empty search string is not the same as no search string.  It
    passes every entry whose summary is a string, but it still reads the
    summary: on an entry without a summary it raises [AttributeError] and on
    a summary that is [None] it raises [TypeError], where an unset search
    passes the entry without looking at it. *)
Theorem empty_search_string (e : entry) :
  (∀ s, e !! "summary" = Some (VStr s) → passes_search (Some "") e = Ok true)
  ∧ (e !! "summary" = None →
     passes_search (Some "") e = Raise AttributeError)
  ∧ (e !! "summary" = Some VNone →
     passes_search (Some "") e = Raise TypeError)
  ∧ passes_search None e = Ok true.
Proof.
  unfold passes_search, Py.getattr. repeat split.
  - intros s ->. simpl. by rewrite str_contains_empty.
  - by intros ->.
  - by intros ->.
Qed.

Lemma empty_search_string_witness :
  passes_search (Some "") Scenario.new_item = Ok true
  ∧ passes_search (Some "") Scenario.bare = Raise AttributeError.
Proof.
  split.
  - apply (proj1 (empty_search_string Scenario.new_item) "python rocks").
    by vm_compute.
  - apply (proj1 (proj2 (empty_search_string Scenario.bare))).
    by vm_compute.
Defined.

(** ** The first poll with [most_recent_item] *)

Lemma pending_cycle_shape parse cfg d net m :
  first_poll m = true →
  let m' := poll_cycle parse cfg d true net m in
  (first_poll m' = true ∧ queue m' = queue m)
  ∨ (first_poll m' = false
     ∧ ∃ events, queue m' = queue m ++ events ∧ (length events ≤ 1)%nat).
Proof.
  intros Hf m'. subst m'.
  destruct (fetch_result net) as [|c text] eqn:Hfetch.
  { left. by rewrite (poll_cycle_no_data _ _ _ _ _ _ Hfetch). }
  apply fetch_result_data in Hfetch as ->; [| done].
  rewrite poll_cycle_data by done.
  destruct (parse (String c text)) as [feed|x] eqn:Hp.
  2: { left. by rewrite (process_feed_parse_raise _ _ _ _ _ _ Hp). }
  destruct (entries feed) as [|first rest] eqn:He.
  - left.
    assert (Hc : cold_start_pending true m feed = false).
    { unfold cold_start_pending. rewrite He. simpl. by rewrite andb_false_r. }
    destruct (last_updated m) as [w|] eqn:Hw.
    + rewrite (process_feed_steady _ _ _ _ _ _ _ Hp Hc Hw), He. done.
    + by rewrite (process_feed_idle _ _ _ _ _ _ Hp Hc Hw).
  - rewrite (process_feed_cold _ _ _ _ _ _ _ _ Hp Hf eq_refl He).
    destruct (passes_search (cfg_search cfg) first) as [b|x]; [| by left].
    right. split; [done |]. simpl.
    exists (if b then [event_of cfg first] else []).
    split; [done |]. destruct b; simpl; lia.
Qed.

(** X17.  With [most_recent_item] on, the first poll gives at most one
    event: as long as [first_poll] is still true after a run of iterations
    nothing has been put on the queue, and the iteration that sets it to
    false puts at most one event on the queue. *)
Theorem first_poll_gives_at_most_one parse cfg d :
  (∀ nets m,
     first_poll (poll_cycles parse cfg d true nets m) = true →
     queue (poll_cycles parse cfg d true nets m) = queue m
     ∧ first_poll m = true)
  ∧ (∀ net m,
       first_poll m = true →
       first_poll (poll_cycle parse cfg d true net m) = false →
       ∃ events,
         queue (poll_cycle parse cfg d true net m) = queue m ++ events
         ∧ (length events ≤ 1)%nat).
Proof.
  split.
  - intros nets. induction nets as [|net nets IH]; intros m Hend; [done |].
    cbn [poll_cycles foldl] in *.
    change (foldl _ ?m0 nets) with (poll_cycles parse cfg d true nets m0) in *.
    destruct (IH _ Hend) as [Hq Hf1].
    destruct (first_poll m) eqn:Hf.
    + destruct (pending_cycle_shape parse cfg d net m Hf) as [[_ Hq1] | [Hf2 _]].
      * split; [| done]. by rewrite Hq, Hq1.
      * congruence.
    + rewrite (poll_cycle_first_poll_false _ _ _ _ _ _ Hf) in Hf1. done.
  - intros net m Hf Hend.
    destruct (pending_cycle_shape parse cfg d net m Hf) as [[Hf1 _] | [_ H]];
      [congruence | done].
Qed.

Lemma first_poll_gives_at_most_one_witness :
  queue
    (poll_feed Scenario.parse Scenario.plain 7200 true []
       [HttpException; HttpResponse 200 "empty"; HttpResponse 200 "raises"])
  = [].
Proof.
  apply (proj1 (first_poll_gives_at_most_one Scenario.parse Scenario.plain
                  7200)
           [HttpException; HttpResponse 200 "empty"; HttpResponse 200 "raises"]
           (initial_machine [])).
  reflexivity.
Defined.
